(** * yodel: the job-state synchronisation client (frontend/src/App.tsx)

    A shallow embedding of the React component [App], of its form
    [CreateJobForm] and of the table [JobList].  The event handlers of the
    source are written in a small monad that records the actions a handler
    performs, in program order, together with the way it completes (normally
    or by throwing).  The component state of React, the calls of [toast], the
    console and the network are the fields of one [World]; running a handler
    folds its actions over the world.

    Of the two revisions of App.tsx the embedding follows the later one, the
    one that loads the locations and shows a status per completed job. *)

From Stdlib Require Import String List ZArith Bool Lia.
From Stdlib Require Import DecimalString Permutation.
From ExtLib Require Import Structures.Monad Structures.MonadExc.
Import ListNotations.
Import MonadNotation.

Local Open Scope string_scope.
Local Open Scope list_scope.
Local Open Scope Z_scope.
Local Open Scope monad_scope.

(** ** JavaScript values

    [JSON.parse] and [Response.json] return [any]: whatever the wire carried.
    The handlers test such values for truthiness and read properties off
    them, so they are modelled dynamically.  An object is the list of its own
    properties in enumeration order, with distinct keys.  Numbers are the
    integer-valued ones; the program only ever tests a number for
    truthiness.  [Undefined] is what reading a missing property gives; JSON
    itself never carries it.  A string is held as its UTF-8 bytes. *)

#[local] Set Warnings "-register-all".

Inductive value : Type :=
| Undefined
| Null
| Bool (b : bool)
| Num (n : Z)
| Str (s : string)
| Arr (elements : list value)
| Obj (properties : list (string * value)).

(** The boolean a value converts to in the test of an [if]. *)
Definition truthy (v : value) : bool :=
  match v with
  | Undefined | Null => false
  | Bool b => b
  | Num n => negb (n =? 0)
  | Str s => negb (s =? "")%string
  | Arr _ | Obj _ => true
  end.

(** The property [key] among the own properties [ps] of an object. *)
Fixpoint lookup (key : string) (ps : list (string * value)) : value :=
  match ps with
  | [] => Undefined
  | (k, v) :: rest => if (k =? key)%string then v else lookup key rest
  end.

(** Errors a handler can throw or a promise can reject with.
    [InvariantViolation] is the error React throws for a child it cannot
    render ("Objects are not valid as a React child"). *)
Inductive Error : Type :=
| TypeError
| SyntaxError
| AbortError
| InvariantViolation.

(** ** What the program talks to *)

(** Options passed to [toast] of react-semantic-toasts. *)
Inductive ToastType : Type := info | success | warning | error.

Record ToastOptions : Type := {
  type : ToastType;
  title : string;
  description : value;
  time : Z
}.

(** A request handed to [fetch]; [resource] is the part of the URL that
    follows [API_URI]. *)
Record Request : Type := {
  resource : string;
  method : string;
  body : option value
}.

(** The [Response] of the Fetch API.  [json] is what [resp.json()] resolves
    to, [None] when the body is not JSON and the promise rejects. *)
Record Response : Type := {
  status : Z;
  statusText : string;
  json : option value
}.

(** [Response.ok]: the status is in the range 200-299. *)
Definition ok (resp : Response) : bool :=
  (200 <=? status resp) && (status resp <=? 299).

(** How the promise returned by [fetch] settles. *)
Inductive Settled : Type :=
| Fulfilled (resp : Response)
| Rejected (err : Error).

(** The event given to [socket.onclose]. *)
Record CloseEvent : Type := {
  wasClean : bool;
  code : Z;
  reason : string
}.

(** The event given to [socket.onmessage].  The text of the frame is carried
    as what [JSON.parse] makes of it: [None] when it throws. *)
Record MessageEvent : Type := {
  data : option value
}.

(** A download destination.  [path] is whatever the object served by
    [/locations] maps the name to. *)
Record Location : Type := {
  name : string;
  path : value
}.

(** What is handed to [console.log] and [console.error]. *)
Inductive Logged : Type :=
| LogValue (v : value)
| LogError (e : Error)
| LogClose (ev : CloseEvent).

(** ** Actions

    Everything a handler does to the component state or to the outside. *)

Inductive Action : Type :=
| SetPendingJobs (v : value)
| SetCompletedJobs (v : value)
| SetLocations (l : list Location)
| SetConnected (b : bool)
| SetLoading (b : bool)
| SetUrl (s : string)
| SetLocation (s : option string)
| ConsoleLog (x : Logged)
| ConsoleError (x : Logged)
| Toast (t : ToastOptions)
| Fetch (req : Request)
| NewReconnectingWebSocket
| SocketClose (code : Z).

(** ** The handler monad

    [now] are the actions performed before the handler (or the promise chain)
    completes, [later] those of promises it started and did not chain, which
    settle in a later task; [completion] is how it completes. *)

Inductive Completion (A : Type) : Type :=
| Normal (a : A)
| Throw (e : Error).
Arguments Normal {A} a.
Arguments Throw {A} e.

Record M (A : Type) : Type := {
  now : list Action;
  later : list Action;
  completion : Completion A
}.
Arguments now {A} m.
Arguments later {A} m.
Arguments completion {A} m.

Definition M_ret {A} (a : A) : M A :=
  {| now := []; later := []; completion := Normal a |}.

Definition M_bind {A B} (m : M A) (f : A -> M B) : M B :=
  match m with
  | {| now := n; later := l; completion := Normal a |} =>
      match f a with
      | {| now := n'; later := l'; completion := c |} =>
          {| now := n ++ n'; later := l ++ l'; completion := c |}
      end
  | {| now := n; later := l; completion := Throw e |} =>
      {| now := n; later := l; completion := Throw e |}
  end.

Definition throw {A} (e : Error) : M A :=
  {| now := []; later := []; completion := Throw e |}.

(** [try { m } catch (e) { h e }], and [promise.catch(h)]. *)
Definition M_catch {A} (m : M A) (h : Error -> M A) : M A :=
  match m with
  | {| now := n; later := l; completion := Throw e |} =>
      match h e with
      | {| now := n'; later := l'; completion := c |} =>
          {| now := n ++ n'; later := l ++ l'; completion := c |}
      end
  | _ => m
  end.

#[global] Instance Monad_M : Monad M :=
  {| ret := @M_ret; bind := @M_bind |}.

#[global] Instance MonadExc_M : MonadExc Error M :=
  {| raise := @throw; catch := @M_catch |}.

Definition emit (a : Action) : M unit :=
  {| now := [a]; later := []; completion := Normal tt |}.

(** [promise.finally(g)]: [g] runs however the promise settled. *)
Definition finally_ (m : M unit) (g : M unit) : M unit :=
  {| now := now m ++ now g;
     later := later m ++ later g;
     completion :=
       match completion g with
       | Normal _ => completion m
       | Throw e => Throw e
       end |}.

(** A promise that is started and not returned: its actions happen in a
    later task and its rejection reaches no handler. *)
Definition detached (m : M unit) : M unit :=
  {| now := []; later := now m ++ later m; completion := Normal tt |}.

(** [if (c) { m }] *)
Definition when (c : bool) (m : M unit) : M unit :=
  if c then m else ret tt.

(** The value of [v.key] where [v] is neither [null] nor [undefined], for the
    keys this program reads (none of them is a property of a prototype). *)
Definition prop (v : value) (key : string) : value :=
  match v with
  | Obj ps => lookup key ps
  | _ => Undefined
  end.

(** Reading [v.key]: a [TypeError] on [null] and [undefined]. *)
Definition get (v : value) (key : string) : M value :=
  match v with
  | Undefined | Null => throw TypeError
  | _ => ret (prop v key)
  end.

(** [JSON.parse(update.data)] *)
Definition JSON_parse (d : option value) : M value :=
  match d with
  | Some v => ret v
  | None => throw SyntaxError
  end.

Definition setLocations (l : list Location) : M unit := emit (SetLocations l).
Definition setConnected (b : bool) : M unit := emit (SetConnected b).
Definition setLoading (b : bool) : M unit := emit (SetLoading b).
Definition setUrl (s : string) : M unit := emit (SetUrl s).
Definition setLocation (s : option string) : M unit := emit (SetLocation s).
Definition console_log (x : Logged) : M unit := emit (ConsoleLog x).
Definition console_error (x : Logged) : M unit := emit (ConsoleError x).
Definition toast (t : ToastOptions) : M unit := emit (Toast t).
Definition fetch (req : Request) : M unit := emit (Fetch req).

(** The cleanup of the socket effect: [socket.close(1000)]. *)
Definition cleanup : M unit := emit (SocketClose 1000).

(** ** Rendering what the lists hold

    The two lists hold whatever was stored, and [App] and [JobList] render
    it as it is.  These are the effects of a render: what [jobStatus] writes
    to the console on the way, and the error that ends the render when a
    value cannot be shown.  ([dayjs(...).fromNow()] takes any value.) *)

(** [array.map(f)], for what [f] does. *)
Fixpoint for_each {A} (f : A -> M unit) (l : list A) : M unit :=
  match l with
  | [] => ret tt
  | x :: rest => f x ;; for_each f rest
  end.

(** What React accepts between tags: text, a number, nothing ([null],
    [undefined], a boolean), or an array of such; never a plain object. *)
Fixpoint valid_child (v : value) : bool :=
  match v with
  | Obj _ => false
  | Arr l => forallb valid_child l
  | _ => true
  end.

(** [v === s] for a string literal [s]. *)
Definition strictly_equals (v : value) (s : string) : bool :=
  match v with
  | Str t => (t =? s)%string
  | _ => false
  end.

(** [jobStatus(job)] on a job as it came: the status is logged unless it is
    "Finished" or "InProgress", and [job.status.Failed] is read. *)
Definition jobStatus_effects (job : value) : M unit :=
  status <- get job "status" ;;
  if strictly_equals status "Finished" || strictly_equals status "InProgress"
  then ret tt
  else
    console_log (LogValue status) ;;
    reason <- get status "Failed" ;;
    ret tt.

(** The body of the callback of [jobs.map]: it reads [job.url] first. *)
Definition row_effects (isCompleted : bool) (job : value) : M unit :=
  url <- get job "url" ;;
  title <- get job "title" ;;
  startedOn <- get job "startedOn" ;;
  when isCompleted (jobStatus_effects job).

(** The child of the link: [job.title ? job.title : job.url]. *)
Definition linkChild (job : value) : value :=
  if truthy (prop job "title") then prop job "title" else prop job "url".

(** [<JobList jobs={jobs} isCompleted={isCompleted} />]: [jobs.map] exists
    on arrays alone; the rows are built one after the other, and then their
    links are rendered. *)
Definition JobList_effects (isCompleted : bool) (jobs : value) : M unit :=
  match jobs with
  | Arr l =>
      for_each (row_effects isCompleted) l ;;
      if forallb (fun job => valid_child (linkChild job)) l
      then ret tt
      else throw InvariantViolation
  | _ => throw TypeError
  end.

(** The width in bytes of the UTF-8 sequence that starts with [b]. *)
Definition width (b : Ascii.ascii) : nat :=
  let n := Ascii.N_of_ascii b in
  if (n <? 192)%N then 1
  else if (n <? 224)%N then 2
       else if (n <? 240)%N then 3
            else if (n <? 248)%N then 4 else 1.

(** The bytes of a string, one UTF-8 sequence after the other. *)
Fixpoint sequences (expect : nat) (current : list Ascii.ascii)
    (bytes : list Ascii.ascii) : list (list Ascii.ascii) :=
  match bytes with
  | [] => match current with [] => [] | _ => [rev current] end
  | b :: rest =>
      match expect with
      | O =>
          match width b with
          | 1%nat => [b] :: sequences 0 [] rest
          | n => sequences (n - 1) [b] rest
          end
      | 1%nat => rev (b :: current) :: sequences 0 [] rest
      | S n => sequences n (b :: current) rest
      end
  end.

(** A surrogate, as three bytes. *)
Definition surrogate_bytes (u : N) : list Ascii.ascii :=
  [Ascii.ascii_of_N (224 + u / 4096);
   Ascii.ascii_of_N (128 + (u / 64) mod 64);
   Ascii.ascii_of_N (128 + u mod 64)]%N.

(** The UTF-16 code units of one UTF-8 sequence: itself, or the two
    surrogates of a sequence of four bytes. *)
Definition units_of (sequence : list Ascii.ascii) : list (list Ascii.ascii) :=
  match sequence with
  | [b0; b1; b2; b3] =>
      let point :=
        ((Ascii.N_of_ascii b0 mod 8) * 262144
         + (Ascii.N_of_ascii b1 mod 64) * 4096
         + (Ascii.N_of_ascii b2 mod 64) * 64
         + Ascii.N_of_ascii b3 mod 64)%N in
      let c := (point - 65536)%N in
      [surrogate_bytes (55296 + c / 1024); surrogate_bytes (56320 + c mod 1024)]%N
  | _ => [sequence]
  end.

(** The UTF-16 code units of a string, each as a string of its own: what
    indexing a JavaScript string and [string.length] go by. *)
Definition code_units (s : string) : list string :=
  map string_of_list_ascii
    (flat_map units_of (sequences 0 [] (list_ascii_of_string s))).

(** [pendingJobs.length] in the header of the running jobs. *)
Definition length_of (v : value) : M value :=
  match v with
  | Undefined | Null => throw TypeError
  | Arr l => ret (Num (Z.of_nat (length l)))
  | Str s => ret (Num (Z.of_nat (length (code_units s))))
  | Obj ps => ret (lookup "length" ps)
  | _ => ret Undefined
  end.

(** The part of the render of [App] that shows the pending list: the count
    in the header, then the table. *)
Definition pending_effects (pendingJobs : value) : M unit :=
  count <- length_of pendingJobs ;;
  (if valid_child count then ret tt else throw InvariantViolation) ;;
  JobList_effects false pendingJobs.

(** The render of [App]: the pending list, then the completed one. *)
Definition App_effects (pendingJobs completedJobs : value) : M unit :=
  pending_effects pendingJobs ;;
  JobList_effects true completedJobs.

(** The error, if any, that ends a render showing [v] as the pending list,
    and as the completed list. *)
Definition pending_crash (v : value) : option Error :=
  match completion (pending_effects v) with
  | Normal _ => None
  | Throw e => Some e
  end.

Definition completed_crash (v : value) : option Error :=
  match completion (JobList_effects true v) with
  | Normal _ => None
  | Throw e => Some e
  end.

(** The setters of the two lists.  They are called from socket and promise
    callbacks, where React (a root made by [ReactDOM.render]) renders at
    once: the value is stored and [App] rendered with it before the setter
    returns.  When that render throws, React unmounts the page, which runs
    the cleanup of the socket effect, and the error leaves the setter.  The
    rest of the state was rendered before, so it is the new value that
    decides.  What a page does once it is unmounted is not followed. *)
Definition setPendingJobs (v : value) : M unit :=
  emit (SetPendingJobs v) ;;
  match pending_crash v with
  | None => ret tt
  | Some e => cleanup ;; throw e
  end.

Definition setCompletedJobs (v : value) : M unit :=
  emit (SetCompletedJobs v) ;;
  match completed_crash v with
  | None => ret tt
  | Some e => cleanup ;; throw e
  end.

Arguments pending_crash : simpl never.
Arguments completed_crash : simpl never.

(** ** [App]: the socket handlers *)

Definition onmessage (update : MessageEvent) : M unit :=
  message <- JSON_parse (data update) ;;
  console_log (LogValue message) ;;
  pending <- get message "PendingJobs" ;;
  when (truthy pending) (setPendingJobs pending) ;;
  completed <- get message "CompletedJobs" ;;
  when (truthy completed) (setCompletedJobs completed) ;;
  finished <- get message "Finished" ;;
  when (truthy finished)
    (url <- get finished "url" ;;
     toast {| type := success;
              title := "Job complete!";
              description := url;
              time := 5000 |}) ;;
  failed <- get message "Failed" ;;
  when (truthy failed)
    (console_error (LogValue failed) ;;
     reason <- get failed "reason" ;;
     toast {| type := error;
              title := "Job failed!";
              description := reason;
              time := 0 |}).

Definition onclose (msg : CloseEvent) : M unit :=
  console_log (LogClose msg) ;;
  when (negb (wasClean msg))
    (console_log (LogValue (Str "unclean websocket shutdown")) ;;
     setConnected false).

Definition onerror : M unit := setConnected false.

Definition onopen : M unit := setConnected true.

(** ** [App]: the snapshot fetches

    Each effect issues its [fetch] when the component mounts; the promise
    chain attached to it runs when the fetch has settled. *)

(** The promise of [fetch], once settled. *)
Definition settle (r : Settled) : M Response :=
  match r with
  | Fulfilled resp => ret resp
  | Rejected err => throw err
  end.

(** [resp.json()] *)
Definition resp_json (resp : Response) : M value :=
  match json resp with
  | Some v => ret v
  | None => throw SyntaxError
  end.

Definition index_key (i : nat) : string :=
  NilEmpty.string_of_uint (Nat.to_uint i).

Definition indexed (l : list value) : list (string * value) :=
  combine (map index_key (seq 0 (length l))) l.

(** [Object.entries(data)] *)
Definition Object_entries (data : value) : M (list (string * value)) :=
  match data with
  | Undefined | Null => throw TypeError
  | Bool _ | Num _ => ret []
  | Str s => ret (indexed (map Str (code_units s)))
  | Arr l => ret (indexed l)
  | Obj ps => ret ps
  end.

Definition mount : M unit :=
  fetch {| resource := "/jobs"; method := "GET"; body := None |} ;;
  fetch {| resource := "/completed-jobs"; method := "GET"; body := None |} ;;
  fetch {| resource := "/locations"; method := "GET"; body := None |} ;;
  emit NewReconnectingWebSocket.

Definition jobs_fetched (r : Settled) : M unit :=
  catch
    (resp <- settle r ;;
     data <- resp_json resp ;;
     setPendingJobs data)
    (fun err => console_error (LogError err)).

Definition completed_jobs_fetched (r : Settled) : M unit :=
  catch
    (resp <- settle r ;;
     data <- resp_json resp ;;
     setCompletedJobs data)
    (fun err => console_error (LogError err)).

Definition locations_fetched (r : Settled) : M unit :=
  catch
    (resp <- settle r ;;
     data <- resp_json resp ;;
     entries <- Object_entries data ;;
     let res := map (fun '(name, path) => {| name := name; path := path |})
                    entries in
     setLocations res)
    (fun err => console_error (LogError err)).

(** ** [CreateJobForm] *)

(** [handleSubmit] up to the call of [fetch]; [url] and [location] are the
    state the handler closed over. *)
Definition handleSubmit (url : string) (location : option string) : M unit :=
  setLoading true ;;
  fetch {| resource := "/jobs";
           method := "POST";
           body := Some (Obj (("url", Str url) ::
                              match location with
                              | Some l => [("location", Str l)]
                              | None => []
                              end)) |}.

(** The promise chain of [handleSubmit], once the fetch has settled. *)
Definition handleSubmit_settled (r : Settled) : M unit :=
  finally_
    (catch
       (resp <- settle r ;;
        if ok resp then setUrl ""
        else
          detached
            (res <- resp_json resp ;;
             let title := "Unexpected job startup error!" in
             let type := error in
             let '(title, type) :=
               if (statusText resp =? "Conflict")%string
               then ("Conflict: job was already requested", warning)
               else (title, type) in
             let title :=
               if (statusText resp =? "Unprocessable Entity")%string
               then "Invalid Video Requested"
               else title in
             toast {| type := type;
                      title := title;
                      description := res;
                      time := 0 |}))
       (fun err => console_error (LogError err)))
    (setLoading false).

Definition onChange_url (v : string) : M unit := setUrl v.

Definition onChange_location (v : option string) : M unit := setLocation v.

(** ** The world

    The state of [App] ([pendingJobs], [completedJobs], [locations],
    [connected]), the state of [CreateJobForm] ([loading], [url],
    [location]), and what the program left outside: the toasts handed to
    [toast], in the order of the calls, the lines it wrote to the console,
    its traffic on the network. *)

Inductive ConsoleLine : Type :=
| LogLine (x : Logged)
| ErrorLine (x : Logged).

Inductive NetworkOp : Type :=
| Requested (req : Request)
| SocketOpened
| SocketClosed (code : Z).

Record World : Type := {
  pendingJobs : value;
  completedJobs : value;
  locations : list Location;
  connected : bool;
  loading : bool;
  url : string;
  location : option string;
  toasts : list ToastOptions;
  console : list ConsoleLine;
  network : list NetworkOp
}.

(** The first render: the [useState] initialisers.  [location] starts as
    [locations[0]?.name] with no location loaded. *)
Definition initial : World :=
  {| pendingJobs := Arr [];
     completedJobs := Arr [];
     locations := [];
     connected := false;
     loading := false;
     url := "";
     location := None;
     toasts := [];
     console := [];
     network := [] |}.

(** What a render of [App] writes to the console. *)
Definition render_log (pendingJobs completedJobs : value) : list ConsoleLine :=
  flat_map
    (fun a =>
       match a with
       | ConsoleLog x => [LogLine x]
       | ConsoleError x => [ErrorLine x]
       | _ => []
       end)
    (now (App_effects pendingJobs completedJobs)).

Arguments render_log : simpl never.

(** A setter of [App] stores its value and [App] renders again, with what
    that writes to the console; setting the connection flag to the value it
    has renders nothing.  The setters of [CreateJobForm] render the form
    alone. *)
Definition step (w : World) (a : Action) : World :=
  match a with
  | SetPendingJobs v =>
      {| pendingJobs := v; completedJobs := completedJobs w;
         locations := locations w; connected := connected w;
         loading := loading w; url := url w; location := location w;
         toasts := toasts w;
         console := console w ++ render_log v (completedJobs w);
         network := network w |}
  | SetCompletedJobs v =>
      {| pendingJobs := pendingJobs w; completedJobs := v;
         locations := locations w; connected := connected w;
         loading := loading w; url := url w; location := location w;
         toasts := toasts w;
         console := console w ++ render_log (pendingJobs w) v;
         network := network w |}
  | SetLocations l =>
      {| pendingJobs := pendingJobs w; completedJobs := completedJobs w;
         locations := l; connected := connected w;
         loading := loading w; url := url w; location := location w;
         toasts := toasts w;
         console := console w ++ render_log (pendingJobs w) (completedJobs w);
         network := network w |}
  | SetConnected b =>
      {| pendingJobs := pendingJobs w; completedJobs := completedJobs w;
         locations := locations w; connected := b;
         loading := loading w; url := url w; location := location w;
         toasts := toasts w;
         console := console w ++
                    (if Bool.eqb b (connected w) then []
                     else render_log (pendingJobs w) (completedJobs w));
         network := network w |}
  | SetLoading b =>
      {| pendingJobs := pendingJobs w; completedJobs := completedJobs w;
         locations := locations w; connected := connected w;
         loading := b; url := url w; location := location w;
         toasts := toasts w; console := console w; network := network w |}
  | SetUrl s =>
      {| pendingJobs := pendingJobs w; completedJobs := completedJobs w;
         locations := locations w; connected := connected w;
         loading := loading w; url := s; location := location w;
         toasts := toasts w; console := console w; network := network w |}
  | SetLocation s =>
      {| pendingJobs := pendingJobs w; completedJobs := completedJobs w;
         locations := locations w; connected := connected w;
         loading := loading w; url := url w; location := s;
         toasts := toasts w; console := console w; network := network w |}
  | Toast t =>
      {| pendingJobs := pendingJobs w; completedJobs := completedJobs w;
         locations := locations w; connected := connected w;
         loading := loading w; url := url w; location := location w;
         toasts := toasts w ++ [t]; console := console w;
         network := network w |}
  | ConsoleLog x =>
      {| pendingJobs := pendingJobs w; completedJobs := completedJobs w;
         locations := locations w; connected := connected w;
         loading := loading w; url := url w; location := location w;
         toasts := toasts w; console := console w ++ [LogLine x];
         network := network w |}
  | ConsoleError x =>
      {| pendingJobs := pendingJobs w; completedJobs := completedJobs w;
         locations := locations w; connected := connected w;
         loading := loading w; url := url w; location := location w;
         toasts := toasts w; console := console w ++ [ErrorLine x];
         network := network w |}
  | Fetch req =>
      {| pendingJobs := pendingJobs w; completedJobs := completedJobs w;
         locations := locations w; connected := connected w;
         loading := loading w; url := url w; location := location w;
         toasts := toasts w; console := console w;
         network := network w ++ [Requested req] |}
  | NewReconnectingWebSocket =>
      {| pendingJobs := pendingJobs w; completedJobs := completedJobs w;
         locations := locations w; connected := connected w;
         loading := loading w; url := url w; location := location w;
         toasts := toasts w; console := console w;
         network := network w ++ [SocketOpened] |}
  | SocketClose c =>
      {| pendingJobs := pendingJobs w; completedJobs := completedJobs w;
         locations := locations w; connected := connected w;
         loading := loading w; url := url w; location := location w;
         toasts := toasts w; console := console w;
         network := network w ++ [SocketClosed c] |}
  end.

(** All the actions of a handler, those of the promises it left behind last. *)
Definition actions {A} (m : M A) : list Action := now m ++ later m.

(** The world after a handler has run (its detached promises included). *)
Definition run {A} (w : World) (m : M A) : World :=
  fold_left step (actions m) w.

(** ** [JobList]

    The table is typed by the interface [Job]; [status] is the union
    ["Finished" | "InProgress" | { Failed: string }]. *)

Module Job.

Inductive Status : Type :=
| Finished
| InProgress
| Failed (reason : string).

Record Job : Type := {
  url : string;
  title : option string;
  location : Location;
  startedOn : string;
  status : Status
}.

End Job.

(** The text [jobStatus] returns.  On the way to the text of a failure it
    writes the status to the console: see [jobStatus_effects]. *)
Definition jobStatus (job : Job.Job) : string :=
  match Job.status job with
  | Job.Finished | Job.InProgress => "Finished"
  | Job.Failed reason => ("Failed: " ++ reason)%string
  end.

(** The text of the link in the first cell: [job.title ? job.title : job.url]. *)
Definition linkText (job : Job.Job) : string :=
  match Job.title job with
  | Some t => if (t =? "")%string then Job.url job else t
  | None => Job.url job
  end.

(** The status cell of a row: [isCompleted && <Table.Cell>...]. *)
Definition statusCell (isCompleted : bool) (job : Job.Job) : option string :=
  if isCompleted then Some (jobStatus job) else None.

(** The status column of [<JobList jobs={jobs} isCompleted={isCompleted} />]. *)
Definition statusColumn (isCompleted : bool) (jobs : list Job.Job)
  : list (option string) :=
  map (statusCell isCompleted) jobs.

(** ** Sessions

    The page reacts to one event at a time; a session is the sequence of
    events since the first render. *)

Inductive Event : Type :=
| Mounted
| Unmounted
| JobsFetched (r : Settled)
| CompletedJobsFetched (r : Settled)
| LocationsFetched (r : Settled)
| Message (update : MessageEvent)
| Close (msg : CloseEvent)
| Errored
| Open
| UrlTyped (v : string)
| LocationPicked (v : option string)
| Submitted
| SubmitSettled (r : Settled).

Definition react (w : World) (e : Event) : World :=
  match e with
  | Mounted => run w mount
  | Unmounted => run w cleanup
  | JobsFetched r => run w (jobs_fetched r)
  | CompletedJobsFetched r => run w (completed_jobs_fetched r)
  | LocationsFetched r => run w (locations_fetched r)
  | Message update => run w (onmessage update)
  | Close msg => run w (onclose msg)
  | Errored => run w onerror
  | Open => run w onopen
  | UrlTyped v => run w (onChange_url v)
  | LocationPicked v => run w (onChange_location v)
  | Submitted => run w (handleSubmit (url w) (location w))
  | SubmitSettled r => run w (handleSubmit_settled r)
  end.

Definition session (events : list Event) : World :=
  fold_left react events initial.

(** ** The rest of the page *)

(** [WebsocketURI]: the configured address when there is one (an empty one
    counts as none), else the page's own host, secure when the page is. *)
Definition WebsocketURI (REACT_APP_WS_URL : option string)
    (protocol host : string) : string :=
  let own :=
    ((if (protocol =? "https:")%string then "wss://" else "ws://")
       ++ host ++ "/ws")%string in
  match REACT_APP_WS_URL with
  | Some configured => if (configured =? "")%string then own else configured
  | None => own
  end.

(** [array.map((x, index) => f(x, index))] *)
Definition map_indexed {A B} (f : A -> nat -> B) (l : list A) : list B :=
  map (fun '(index, x) => f x index) (combine (seq 0 (length l)) l).

(** A row of the table of [JobList]: its React key, the target of the link
    in its first cell, and the texts of its cells. *)
Record TableRow : Type := {
  row_key : nat;
  href : string;
  cells : list string
}.

Section JobList.

(** [dayjs(startedOn).fromNow()], which depends on the clock. *)
Variable fromNow : string -> string.

Definition JobList_header (isCompleted : bool) : list string :=
  ["Video"; "Started On"] ++ (if isCompleted then ["Status"] else []).

Definition JobList_row (isCompleted : bool) (job : Job.Job) (index : nat)
  : TableRow :=
  {| row_key := index;
     href := Job.url job;
     cells := [linkText job; fromNow (Job.startedOn job)] ++
              match statusCell isCompleted job with
              | Some text => [text]
              | None => []
              end |}.

Definition JobList_body (isCompleted : bool) (jobs : list Job.Job)
  : list TableRow :=
  map_indexed (JobList_row isCompleted) jobs.

End JobList.

(** An option of the location select of [CreateJobForm]. *)
Record SelectOption : Type := {
  option_key : nat;
  option_text : string;
  option_value : string
}.

Definition options (locations : list Location) : list SelectOption :=
  map_indexed
    (fun location index =>
       {| option_key := index;
          option_text := name location;
          option_value := name location |})
    locations.

(** The header line of [App]. *)
Definition serverStatus (w : World) : string :=
  ("Server Status: " ++ if connected w then "Connected" else "Disconnected")%string.

(** * Properties

    First the vocabulary of the statements, then the lemmas on [onmessage]
    that the theorems share, then the theorems. *)

(** A push frame whose text parses to the object with the given properties. *)
Definition envelope (fields : list (string * value)) : MessageEvent :=
  {| data := Some (Obj fields) |}.

(** The alerts of the two terminal events. *)
Definition finishedAlert (finished : value) : ToastOptions :=
  {| type := success;
     title := "Job complete!";
     description := prop finished "url";
     time := 5000 |}.

Definition failedAlert (failed : value) : ToastOptions :=
  {| type := error;
     title := "Job failed!";
     description := prop failed "reason";
     time := 0 |}.

(** [needle] occurs in [s]. *)
Definition contains (needle s : string) : Prop :=
  exists before after, s = (before ++ needle ++ after)%string.

(** The error a fetch fails with: the rejection of [fetch] itself (network),
    or of [resp.json()] when the body is not JSON (parse). *)
Definition failure (r : Settled) : option Error :=
  match r with
  | Rejected err => Some err
  | Fulfilled resp =>
      match json resp with
      | None => Some SyntaxError
      | Some _ => None
      end
  end.

(** A failed fetch left nothing behind but one line on the error console. *)
Definition only_logged (w w' : World) (err : Error) : Prop :=
  console w' = console w ++ [ErrorLine (LogError err)] /\
  network w' = network w /\
  toasts w' = toasts w /\
  pendingJobs w' = pendingJobs w /\
  completedJobs w' = completedJobs w /\
  locations w' = locations w /\
  connected w' = connected w.

(** The events that store a list: a snapshot fetch that did not fail, and
    for the two job lists a push message whose key is truthy. *)
Definition writes_pending (e : Event) : bool :=
  match e with
  | JobsFetched r =>
      match failure r with None => true | Some _ => false end
  | Message {| data := Some message |} => truthy (prop message "PendingJobs")
  | _ => false
  end.

Definition writes_completed (e : Event) : bool :=
  match e with
  | CompletedJobsFetched r =>
      match failure r with None => true | Some _ => false end
  | Message {| data := Some message |} => truthy (prop message "CompletedJobs")
  | _ => false
  end.

Definition writes_locations (e : Event) : bool :=
  match e with
  | LocationsFetched r =>
      match failure r with None => true | Some _ => false end
  | _ => false
  end.

(** Worlds, events and responses the statements are tried on. *)

Definition job (u : string) : value :=
  Obj [("url", Str u); ("status", Str "InProgress")].

(** A session that is connected and shows two running jobs. *)
Definition busy : World :=
  fold_left step
    [SetConnected true; SetPendingJobs (Arr [job "v0"; job "v1"]);
     SetCompletedJobs (Arr [job "u0"])]
    initial.

Definition clean : CloseEvent :=
  {| wasClean := true; code := 1000; reason := "" |}.

(** The response [409 Conflict] with the given body. *)
Definition conflict (b : option value) : Response :=
  {| status := 409; statusText := "Conflict"; json := b |}.


(** The toast of a rejected submission whose body parsed to [res]. *)
Definition rejectionAlert (resp : Response) (res : value) : ToastOptions :=
  {| type := if (statusText resp =? "Conflict")%string then warning else error;
     title :=
       if (statusText resp =? "Unprocessable Entity")%string
       then "Invalid Video Requested"
       else if (statusText resp =? "Conflict")%string
            then "Conflict: job was already requested"
            else "Unexpected job startup error!";
     description := res;
     time := 0 |}.

(** Kinds of events and of network traffic, for counting and excluding. *)
Definition is_Mounted (e : Event) : bool :=
  match e with Mounted => true | _ => false end.

Definition is_Unmounted (e : Event) : bool :=
  match e with Unmounted => true | _ => false end.

Definition is_Submitted (e : Event) : bool :=
  match e with Submitted => true | _ => false end.

Definition is_Open (e : Event) : bool :=
  match e with Open => true | _ => false end.

Definition is_LocationPicked (e : Event) : bool :=
  match e with LocationPicked _ => true | _ => false end.

(** The events after which the page shows Disconnected. *)
Definition disconnects (e : Event) : bool :=
  match e with
  | Errored => true
  | Close msg => negb (wasClean msg)
  | _ => false
  end.

(** The events that can show a toast. *)
Definition may_toast (e : Event) : bool :=
  match e with
  | Message _ | SubmitSettled _ => true
  | _ => false
  end.

Definition is_request (op : NetworkOp) : bool :=
  match op with Requested _ => true | _ => false end.

Definition is_socket_opened (op : NetworkOp) : bool :=
  match op with SocketOpened => true | _ => false end.

Definition is_socket_closed (op : NetworkOp) : bool :=
  match op with SocketClosed _ => true | _ => false end.

Definition count {A} (p : A -> bool) (l : list A) : nat :=
  length (filter p l).

Ltac run_handler :=
  unfold run, actions; simpl.

Ltac by_truthiness :=
  repeat match goal with
         | |- context [truthy ?v] =>
             let E := fresh "E" in destruct (truthy v) eqn:E; simpl
         | |- context [pending_crash ?v] =>
             let E := fresh "E" in destruct (pending_crash v) eqn:E; simpl
         | |- context [completed_crash ?v] =>
             let E := fresh "E" in destruct (completed_crash v) eqn:E; simpl
         end.

Ltac by_response r :=
  let st := fresh "st" in
  let txt := fresh "txt" in
  let d := fresh "d" in
  let e := fresh "e" in
  destruct r as [[st txt [d|]]|e]; cbn; by_truthiness.

Section OnMessage.

Variable message : value.

(** A message that is neither [null] nor [undefined] runs the four rules,
    each on its own key, up to the first list that cannot be rendered. *)
Lemma onmessage_rules :
  message <> Null -> message <> Undefined ->
  onmessage {| data := Some message |}
  = match (if truthy (prop message "PendingJobs")
           then pending_crash (prop message "PendingJobs") else None) with
    | Some e =>
        {| now := [ConsoleLog (LogValue message);
                   SetPendingJobs (prop message "PendingJobs");
                   SocketClose 1000];
           later := [];
           completion := Throw e |}
    | None =>
        match (if truthy (prop message "CompletedJobs")
               then completed_crash (prop message "CompletedJobs")
               else None) with
        | Some e =>
            {| now :=
                 ConsoleLog (LogValue message) ::
                 (if truthy (prop message "PendingJobs")
                  then [SetPendingJobs (prop message "PendingJobs")]
                  else []) ++
                 [SetCompletedJobs (prop message "CompletedJobs");
                  SocketClose 1000];
               later := [];
               completion := Throw e |}
        | None =>
            {| now :=
                 ConsoleLog (LogValue message) ::
                 (if truthy (prop message "PendingJobs")
                  then [SetPendingJobs (prop message "PendingJobs")]
                  else []) ++
                 (if truthy (prop message "CompletedJobs")
                  then [SetCompletedJobs (prop message "CompletedJobs")]
                  else []) ++
                 (if truthy (prop message "Finished")
                  then [Toast (finishedAlert (prop message "Finished"))]
                  else []) ++
                 (if truthy (prop message "Failed")
                  then [ConsoleError (LogValue (prop message "Failed"));
                        Toast (failedAlert (prop message "Failed"))]
                  else []);
               later := [];
               completion := Normal tt |}
        end
    end.
Proof.
  intros Hn Hu.
  destruct message as [| |b|n|s|l|ps]; try congruence; try reflexivity.
  unfold onmessage; cbn.
  destruct (truthy (lookup "PendingJobs" ps)); cbn;
    [destruct (pending_crash (lookup "PendingJobs" ps)); cbn;
     [reflexivity|]|];
    (destruct (truthy (lookup "CompletedJobs" ps)); cbn;
     [destruct (completed_crash (lookup "CompletedJobs" ps)); cbn;
      [reflexivity|]|]);
    destruct (lookup "Finished" ps) as [| |[|]|n|[|c s]|l|qs]; cbn;
    try destruct (n =? 0); cbn;
    destruct (lookup "Failed" ps) as [| |[|]|n'|[|c' s']|l'|qs']; cbn;
    try destruct (n' =? 0); reflexivity.
Qed.

End OnMessage.

(** On [null] the first property read throws, after the message was
    logged. *)
Lemma onmessage_null :
  onmessage {| data := Some Null |}
  = {| now := [ConsoleLog (LogValue Null)];
       later := [];
       completion := Throw TypeError |}.
Proof. reflexivity. Qed.

(** A frame that is not JSON makes [JSON.parse] throw. *)
Lemma onmessage_unparsable :
  onmessage {| data := None |} = throw SyntaxError.
Proof. reflexivity. Qed.

Lemma onmessage_envelope (fields : list (string * value)) :
  onmessage (envelope fields)
  = match (if truthy (lookup "PendingJobs" fields)
           then pending_crash (lookup "PendingJobs" fields) else None) with
    | Some e =>
        {| now := [ConsoleLog (LogValue (Obj fields));
                   SetPendingJobs (lookup "PendingJobs" fields);
                   SocketClose 1000];
           later := [];
           completion := Throw e |}
    | None =>
        match (if truthy (lookup "CompletedJobs" fields)
               then completed_crash (lookup "CompletedJobs" fields)
               else None) with
        | Some e =>
            {| now :=
                 ConsoleLog (LogValue (Obj fields)) ::
                 (if truthy (lookup "PendingJobs" fields)
                  then [SetPendingJobs (lookup "PendingJobs" fields)]
                  else []) ++
                 [SetCompletedJobs (lookup "CompletedJobs" fields);
                  SocketClose 1000];
               later := [];
               completion := Throw e |}
        | None =>
            {| now :=
                 ConsoleLog (LogValue (Obj fields)) ::
                 (if truthy (lookup "PendingJobs" fields)
                  then [SetPendingJobs (lookup "PendingJobs" fields)]
                  else []) ++
                 (if truthy (lookup "CompletedJobs" fields)
                  then [SetCompletedJobs (lookup "CompletedJobs" fields)]
                  else []) ++
                 (if truthy (lookup "Finished" fields)
                  then [Toast (finishedAlert (lookup "Finished" fields))]
                  else []) ++
                 (if truthy (lookup "Failed" fields)
                  then [ConsoleError (LogValue (lookup "Failed" fields));
                        Toast (failedAlert (lookup "Failed" fields))]
                  else []);
               later := [];
               completion := Normal tt |}
        end
    end.
Proof.
  unfold envelope. rewrite onmessage_rules by discriminate. reflexivity.
Qed.


(** ** Who writes which list *)

Lemma submit_settled_frame (w : World) (r : Settled) :
  let w' := run w (handleSubmit_settled r) in
  pendingJobs w' = pendingJobs w /\
  completedJobs w' = completedJobs w /\
  locations w' = locations w.
Proof.
  unfold handleSubmit_settled. destruct r as [resp|e]; [|repeat split].
  cbn [settle bind ret Monad_M catch MonadExc_M M_bind M_ret].
  destruct (ok resp); [repeat split|].
  unfold resp_json. destruct (json resp); [|repeat split].
  cbn [bind ret Monad_M M_bind M_ret].
  destruct (statusText resp =? "Conflict")%string;
    destruct (statusText resp =? "Unprocessable Entity")%string;
    repeat split.
Qed.

Lemma onmessage_frame (w : World) (update : MessageEvent) :
  let w' := run w (onmessage update) in
  locations w' = locations w /\
  connected w' = connected w /\
  url w' = url w.
Proof.
  destruct update as [[message|]]; [|repeat split].
  destruct message as [| |b|n|s|l|ps];
    try (repeat split; fail);
    rewrite onmessage_rules by discriminate;
    run_handler; by_truthiness; repeat split.
Qed.

Lemma react_keeps_pending (w : World) (e : Event) :
  writes_pending e = false -> pendingJobs (react w e) = pendingJobs w.
Proof.
  destruct e as [| |r|r|r|update|msg| | |v|v| |r]; cbn [react writes_pending];
    intros H; try reflexivity.
  - by_response r; try discriminate; reflexivity.
  - by_response r; reflexivity.
  - by_response r; try reflexivity.
    destruct d; try reflexivity.
  - destruct update as [[message|]]; [|reflexivity].
    destruct message as [| |b|n|s|l|ps]; try reflexivity;
      rewrite onmessage_rules by discriminate; rewrite H;
      run_handler; by_truthiness; reflexivity.
  - unfold onclose. destruct (wasClean msg); reflexivity.
  - apply submit_settled_frame.
Qed.

Lemma react_keeps_completed (w : World) (e : Event) :
  writes_completed e = false -> completedJobs (react w e) = completedJobs w.
Proof.
  destruct e as [| |r|r|r|update|msg| | |v|v| |r]; cbn [react writes_completed];
    intros H; try reflexivity.
  - by_response r; reflexivity.
  - by_response r; try discriminate; reflexivity.
  - by_response r; try reflexivity.
    destruct d; try reflexivity.
  - destruct update as [[message|]]; [|reflexivity].
    destruct message as [| |b|n|s|l|ps]; try reflexivity;
      rewrite onmessage_rules by discriminate; rewrite H;
      run_handler; by_truthiness; reflexivity.
  - unfold onclose. destruct (wasClean msg); reflexivity.
  - apply submit_settled_frame.
Qed.

Lemma react_keeps_locations (w : World) (e : Event) :
  writes_locations e = false -> locations (react w e) = locations w.
Proof.
  destruct e as [| |r|r|r|update|msg| | |v|v| |r]; cbn [react writes_locations];
    intros H; try reflexivity.
  - by_response r; reflexivity.
  - by_response r; reflexivity.
  - by_response r; try discriminate; reflexivity.
  - apply onmessage_frame.
  - unfold onclose. destruct (wasClean msg); reflexivity.
  - apply submit_settled_frame.
Qed.

(** A list nobody wrote is as it was, however long the session. *)
Lemma unwritten_list_stays
    {A} (field : World -> A) (writes : Event -> bool)
    (keeps : forall w e, writes e = false -> field (react w e) = field w)
    (events : list Event) (w : World) :
  forallb (fun e => negb (writes e)) events = true ->
  field (fold_left react events w) = field w.
Proof.
  revert w. induction events as [|e events IH]; intros w H; [reflexivity|].
  cbn in H. apply andb_prop in H as [He Hrest].
  cbn [fold_left]. rewrite IH by exact Hrest.
  apply keeps. destruct (writes e); [discriminate|reflexivity].
Qed.

Lemma forallb_insert {A} (f : A -> bool) (x : A) (before after : list A) :
  forallb f (before ++ after) = true -> f x = true ->
  forallb f (before ++ x :: after) = true.
Proof.
  rewrite !forallb_app. cbn. intros H Hx.
  apply andb_prop in H as [H1 H2]. rewrite H1, H2, Hx. reflexivity.
Qed.

(** * Theorems *)

(** C1. Whatever the pending list was, a message whose [PendingJobs] key
    holds the array [jobs] leaves the pending list equal to [jobs]; a job of
    the prior list that is not in [jobs] is not in the list afterwards. *)
Theorem pending_jobs_replaced
    (w : World) (fields : list (string * value)) (jobs : list value) :
  lookup "PendingJobs" fields = Arr jobs ->
  let w' := run w (onmessage (envelope fields)) in
  pendingJobs w' = Arr jobs /\
  (forall prior j after,
      pendingJobs w = Arr prior -> In j prior -> ~ In j jobs ->
      pendingJobs w' = Arr after -> ~ In j after).
Proof.
  intros H w'.
  assert (G : pendingJobs w' = Arr jobs).
  { unfold w'. rewrite onmessage_envelope, H. run_handler.
    by_truthiness; reflexivity. }
  split; [exact G|].
  intros prior j after _ _ Hnot Hafter.
  rewrite G in Hafter. injection Hafter as <-. exact Hnot.
Qed.

Lemma pending_jobs_replaced_witness :
  pendingJobs
    (run busy (onmessage (envelope [("PendingJobs", Arr [job "v1"; job "v2"])])))
  = Arr [job "v1"; job "v2"].
Proof.
  exact (proj1 (pending_jobs_replaced busy
                  [("PendingJobs", Arr [job "v1"; job "v2"])]
                  [job "v1"; job "v2"] eq_refl)).
Defined.

(** C2, as the code has it.  A close event with the clean flag set leaves the
    connection state as it was before the event, and the handler opens no
    connection and issues no request; set to [false] (Disconnected) it is
    only by a close whose flag is unset. *)
Theorem clean_close_keeps_connection_state (w : World) (msg : CloseEvent) :
  (wasClean msg = true ->
   connected (run w (onclose msg)) = connected w /\
   network (run w (onclose msg)) = network w) /\
  (wasClean msg = false ->
   connected (run w (onclose msg)) = false /\
   network (run w (onclose msg)) = network w).
Proof.
  unfold onclose. split; intros ->; run_handler; split; reflexivity.
Qed.

Lemma clean_close_keeps_connection_state_witness :
  connected (run busy (onclose clean)) = connected busy /\
  connected
    (run busy (onclose {| wasClean := false; code := 1006; reason := "" |}))
  = false.
Proof.
  split.
  - exact (proj1 (proj1 (clean_close_keeps_connection_state busy clean)
                    eq_refl)).
  - exact (proj1 (proj2 (clean_close_keeps_connection_state busy
                           {| wasClean := false; code := 1006; reason := "" |})
                    eq_refl)).
Defined.

(** C2, as stated, fails: a clean close while Connected does not leave the
    state Disconnected. *)
Lemma clean_close_while_connected :
  connected busy = true /\
  wasClean clean = true /\
  connected (run busy (onclose clean)) <> false.
Proof.
  repeat split. cbv. discriminate.
Qed.

(** C3. A message whose only truthy key of the four is [Finished], and
    likewise one whose only truthy key is [Failed], leaves the pending and the
    completed list as they were and shows exactly one more toast: the success
    toast for [Finished], the error toast whose description is the [reason]
    of the failure for [Failed]. *)
Theorem terminal_events_only_notify
    (w : World) (fields : list (string * value)) :
  truthy (lookup "PendingJobs" fields) = false ->
  truthy (lookup "CompletedJobs" fields) = false ->
  let w' := run w (onmessage (envelope fields)) in
  (truthy (lookup "Finished" fields) = true ->
   truthy (lookup "Failed" fields) = false ->
   pendingJobs w' = pendingJobs w /\
   completedJobs w' = completedJobs w /\
   toasts w' = toasts w ++ [finishedAlert (lookup "Finished" fields)] /\
   type (finishedAlert (lookup "Finished" fields)) = success) /\
  (truthy (lookup "Failed" fields) = true ->
   truthy (lookup "Finished" fields) = false ->
   pendingJobs w' = pendingJobs w /\
   completedJobs w' = completedJobs w /\
   toasts w' = toasts w ++ [failedAlert (lookup "Failed" fields)] /\
   type (failedAlert (lookup "Failed" fields)) = error /\
   description (failedAlert (lookup "Failed" fields))
   = prop (lookup "Failed" fields) "reason").
Proof.
  intros Hp Hc w'. unfold w'.
  rewrite onmessage_envelope, Hp, Hc.
  split; intros H1 H2; rewrite H1, H2; run_handler; repeat split.
Qed.

Lemma terminal_events_only_notify_witness :
  (let w' := run busy (onmessage (envelope [("Finished", job "v1")])) in
   pendingJobs w' = pendingJobs busy /\
   completedJobs w' = completedJobs busy /\
   toasts w' = [{| type := success; title := "Job complete!";
                   description := Str "v1"; time := 5000 |}]) /\
  (let w' :=
     run busy
       (onmessage (envelope [("Failed", Obj [("reason", Str "no space")])])) in
   pendingJobs w' = pendingJobs busy /\
   completedJobs w' = completedJobs busy /\
   toasts w' = [{| type := error; title := "Job failed!";
                   description := Str "no space"; time := 0 |}]).
Proof.
  split.
  - pose proof (proj1 (terminal_events_only_notify busy
                         [("Finished", job "v1")] eq_refl eq_refl)
                  eq_refl eq_refl) as (Hp & Hc & Ht & _).
    exact (conj Hp (conj Hc Ht)).
  - pose proof (proj2 (terminal_events_only_notify busy
                         [("Failed", Obj [("reason", Str "no space")])]
                         eq_refl eq_refl)
                  eq_refl eq_refl) as (Hp & Hc & Ht & _).
    exact (conj Hp (conj Hc Ht)).
Defined.



(** C5, as the code has it.  When the response is not ok, its status text is
    ["Conflict"] and its body is JSON, exactly one toast is added: a warning
    titled "Conflict: job was already requested", which stays until
    dismissed; the URL input keeps its value. *)
Theorem conflict_warns_once (w : World) (resp : Response) (res : value) :
  ok resp = false ->
  statusText resp = "Conflict" ->
  json resp = Some res ->
  let w' := run w (handleSubmit_settled (Fulfilled resp)) in
  toasts w' = toasts w ++
              [{| type := warning;
                  title := "Conflict: job was already requested";
                  description := res;
                  time := 0 |}] /\
  contains "already requested" "Conflict: job was already requested" /\
  url w' = url w.
Proof.
  intros Hok Htext Hjson w'. unfold w', handleSubmit_settled, resp_json.
  cbn [settle bind ret Monad_M catch MonadExc_M M_bind M_ret].
  rewrite Hok, Hjson, Htext. run_handler.
  repeat split. exists "Conflict: job was ", "". reflexivity.
Qed.

Lemma conflict_warns_once_witness :
  let w' := run busy (handleSubmit_settled
                        (Fulfilled (conflict (Some (Str "duplicate"))))) in
  toasts w' = [{| type := warning;
                  title := "Conflict: job was already requested";
                  description := Str "duplicate";
                  time := 0 |}] /\
  url w' = url busy.
Proof.
  pose proof (conflict_warns_once busy (conflict (Some (Str "duplicate")))
                (Str "duplicate") eq_refl eq_refl eq_refl) as (Ht & _ & Hu).
  exact (conj Ht Hu).
Defined.

(** C5, as stated, fails: a 409 Conflict response whose body is not JSON
    shows no toast at all, and a 409 response that carries no reason phrase
    (as over HTTP/2) shows an error toast with another title. *)
Lemma conflict_without_warning :
  status (conflict None) = 409 /\
  toasts (run initial (handleSubmit_settled (Fulfilled (conflict None)))) = [] /\
  toasts (run initial
            (handleSubmit_settled
               (Fulfilled {| status := 409; statusText := "";
                             json := Some (Str "duplicate") |})))
  = [{| type := error;
        title := "Unexpected job startup error!";
        description := Str "duplicate";
        time := 0 |}].
Proof. repeat split. Qed.

(** C6. Submitting shows no toast and touches no list; when the response has
    a status in 200-299 the URL input is set to the empty string, and again
    no toast is shown and no list is touched. *)
Theorem success_clears_input (w : World) (resp : Response) :
  200 <= status resp <= 299 ->
  (let sent := run w (handleSubmit (url w) (location w)) in
   toasts sent = toasts w /\
   pendingJobs sent = pendingJobs w /\
   completedJobs sent = completedJobs w) /\
  (let w' := run w (handleSubmit_settled (Fulfilled resp)) in
   url w' = "" /\
   toasts w' = toasts w /\
   pendingJobs w' = pendingJobs w /\
   completedJobs w' = completedJobs w).
Proof.
  intros [Hlo Hhi].
  assert (Hok : ok resp = true).
  { unfold ok. apply andb_true_intro. split; apply Z.leb_le; assumption. }
  split.
  - run_handler. repeat split.
  - unfold handleSubmit_settled.
    cbn [settle bind ret Monad_M catch MonadExc_M M_bind M_ret].
    rewrite Hok. run_handler. repeat split.
Qed.

Lemma success_clears_input_witness :
  let created := {| status := 201; statusText := "Created"; json := None |} in
  let typed := step busy (SetUrl "http://x") in
  url typed = "http://x" /\
  url (run typed (handleSubmit_settled (Fulfilled created))) = "" /\
  toasts (run typed (handleSubmit_settled (Fulfilled created))) = toasts typed.
Proof.
  intros created typed.
  assert (R : 200 <= status created <= 299) by (cbn; lia).
  pose proof (proj2 (success_clears_input typed created R)) as (Hu & Ht & _).
  exact (conj eq_refl (conj Hu Ht)).
Defined.

(** C7. When a snapshot fetch fails, by the network or because the body does
    not parse, its promise chain writes the error to the console and does
    nothing else: no request goes out, no toast is shown, every list is as
    it was.  In a session where nothing else wrote the list, before the
    failure or after it, the list is empty. *)
Theorem snapshot_failure_only_logged (w : World) (r : Settled) (err : Error) :
  failure r = Some err ->
  (only_logged w (run w (jobs_fetched r)) err /\
   only_logged w (run w (completed_jobs_fetched r)) err /\
   only_logged w (run w (locations_fetched r)) err) /\
  (forall before after,
      forallb (fun e => negb (writes_pending e)) (before ++ after) = true ->
      pendingJobs (session (before ++ JobsFetched r :: after)) = Arr []) /\
  (forall before after,
      forallb (fun e => negb (writes_completed e)) (before ++ after) = true ->
      completedJobs (session (before ++ CompletedJobsFetched r :: after))
      = Arr []) /\
  (forall before after,
      forallb (fun e => negb (writes_locations e)) (before ++ after) = true ->
      locations (session (before ++ LocationsFetched r :: after)) = []).
Proof.
  intros H. split; [|repeat split]; intros.
  - destruct r as [[st txt [data|]]|e]; cbn in H; try discriminate;
      injection H as <-; repeat split.
  - apply (unwritten_list_stays pendingJobs writes_pending react_keeps_pending).
    apply forallb_insert; [assumption | cbn; rewrite H; reflexivity].
  - apply (unwritten_list_stays completedJobs writes_completed
             react_keeps_completed).
    apply forallb_insert; [assumption | cbn; rewrite H; reflexivity].
  - apply (unwritten_list_stays locations writes_locations
             react_keeps_locations).
    apply forallb_insert; [assumption | cbn; rewrite H; reflexivity].
Qed.

Lemma snapshot_failure_only_logged_witness :
  let bad_gateway :=
    Fulfilled {| status := 502; statusText := "Bad Gateway"; json := None |} in
  only_logged busy (run busy (jobs_fetched (Rejected TypeError))) TypeError /\
  locations
    (session [Mounted; Open; LocationsFetched bad_gateway;
              Message (envelope [("PendingJobs", Arr [job "v1"])])])
  = [].
Proof.
  intros bad_gateway. split.
  - exact (proj1 (proj1 (snapshot_failure_only_logged busy
                           (Rejected TypeError) TypeError eq_refl))).
  - exact (proj2 (proj2 (proj2 (snapshot_failure_only_logged initial
                                  bad_gateway SyntaxError eq_refl)))
             [Mounted; Open]
             [Message (envelope [("PendingJobs", Arr [job "v1"])])]
             eq_refl).
Defined.

(** C8. Handling the same frame twice in a row leaves the same pending list
    (and the same completed list) as handling it once; for a message
    [PendingJobs(jobs)] that list is [jobs]. *)
Theorem redelivery_idempotent (w : World) (update : MessageEvent) :
  let once := run w (onmessage update) in
  let twice := run once (onmessage update) in
  pendingJobs twice = pendingJobs once /\
  completedJobs twice = completedJobs once /\
  (forall jobs,
      update = envelope [("PendingJobs", Arr jobs)] ->
      pendingJobs twice = Arr jobs /\ pendingJobs once = Arr jobs).
Proof.
  intros once twice. unfold twice, once. split; [|split].
  - destruct update as [[message|]]; [|reflexivity].
    destruct message as [| |b|n|s|l|ps];
      try reflexivity; rewrite onmessage_rules by discriminate;
      run_handler; by_truthiness; reflexivity.
  - destruct update as [[message|]]; [|reflexivity].
    destruct message as [| |b|n|s|l|ps];
      try reflexivity; rewrite onmessage_rules by discriminate;
      run_handler; by_truthiness; reflexivity.
  - intros jobs ->. rewrite onmessage_envelope. run_handler.
    by_truthiness; split; reflexivity.
Qed.

Lemma redelivery_idempotent_witness :
  let update := envelope [("PendingJobs", Arr [job "v1"; job "v2"])] in
  pendingJobs (run (run busy (onmessage update)) (onmessage update))
  = Arr [job "v1"; job "v2"].
Proof.
  intros update.
  exact (proj1 (proj2 (proj2 (redelivery_idempotent busy update))
                  [job "v1"; job "v2"] eq_refl)).
Defined.

(** C9. In the completed table the status cell of a job reads "Finished"
    when its status is [Finished] and also when it is [InProgress]; for the
    status [Failed reason] it reads "Failed: " followed by the reason, which
    is never the text "Finished". *)
Theorem in_progress_shown_as_finished
    (u : string) (t : option string) (l : Location) (d : string)
    (reason : string) :
  let job s :=
    {| Job.url := u; Job.title := t; Job.location := l;
       Job.startedOn := d; Job.status := s |} in
  statusCell true (job Job.Finished) = Some "Finished" /\
  statusCell true (job Job.InProgress) = Some "Finished" /\
  statusCell true (job (Job.Failed reason))
  = Some ("Failed: " ++ reason)%string /\
  jobStatus (job (Job.Failed reason)) <> "Finished" /\
  jobStatus (job Job.Finished) = jobStatus (job Job.InProgress).
Proof.
  cbn. repeat split. discriminate.
Qed.




(** ** A session from start to finish

    Both snapshots are empty; the stream reports one running job, then its
    completion. *)
Example one_job_session :
  let empty :=
    Fulfilled {| status := 200; statusText := "OK"; json := Some (Arr []) |} in
  let w :=
    session [Mounted; JobsFetched empty; CompletedJobsFetched empty; Open;
             Message (envelope [("PendingJobs", Arr [job "v1"])]);
             Message (envelope [("PendingJobs", Arr [])]);
             Message (envelope [("CompletedJobs", Arr [job "v1"])]);
             Message (envelope [("Finished", job "v1")])] in
  connected w = true /\
  pendingJobs w = Arr [] /\
  completedJobs w = Arr [job "v1"] /\
  toasts w = [{| type := success; title := "Job complete!";
                 description := Str "v1"; time := 5000 |}].
Proof. repeat split. Qed.

(** * Further properties

    ** Shared lemmas *)

(** What the promise chain of [handleSubmit] does, outcome by outcome. *)
Lemma handleSubmit_settled_cases (r : Settled) :
  handleSubmit_settled r
  = match r with
    | Rejected err =>
        {| now := [ConsoleError (LogError err); SetLoading false];
           later := [];
           completion := Normal tt |}
    | Fulfilled resp =>
        if ok resp
        then {| now := [SetUrl ""; SetLoading false];
                later := [];
                completion := Normal tt |}
        else {| now := [SetLoading false];
                later := match json resp with
                         | Some res => [Toast (rejectionAlert resp res)]
                         | None => []
                         end;
                completion := Normal tt |}
    end.
Proof.
  unfold handleSubmit_settled, rejectionAlert. destruct r as [resp|e];
    [|reflexivity].
  cbn [settle bind ret Monad_M catch MonadExc_M M_bind M_ret].
  destruct (ok resp); [reflexivity|].
  unfold resp_json. destruct (json resp); [|reflexivity].
  cbn [bind ret Monad_M M_bind M_ret].
  destruct (statusText resp =? "Conflict")%string;
    destruct (statusText resp =? "Unprocessable Entity")%string;
    reflexivity.
Qed.

(** Every case of an event: the response of a fetch by its body, a frame by
    what it parsed to, a message by the truthiness of its keys. *)
Ltac by_event e :=
  let r := fresh "r" in
  let update := fresh "update" in
  let msg := fresh "msg" in
  let message := fresh "message" in
  destruct e as [| |r|r|r|update|msg| | |?|?| |r]; cbn [react];
  [ | | by_response r | by_response r
  | by_response r; [match goal with d : value |- _ => destruct d end| |]
  | destruct update as [[message|]];
    [destruct message;
     [| |rewrite onmessage_rules by discriminate
        |rewrite onmessage_rules by discriminate
        |rewrite onmessage_rules by discriminate
        |rewrite onmessage_rules by discriminate
        |rewrite onmessage_rules by discriminate]|];
    run_handler; by_truthiness
  | destruct msg as [[|] ? ?] | | | | |
  | rewrite handleSubmit_settled_cases;
    [destruct r as [resp|?];
     [destruct (ok resp); [|destruct (json resp)]|]] ];
  run_handler.

Lemma lookup_absent (key : string) (ps : list (string * value)) :
  ~ In key (map fst ps) -> lookup key ps = Undefined.
Proof.
  induction ps as [|[k v] ps IH]; cbn; intros H; [reflexivity|].
  destruct (String.eqb_spec k key) as [->|_]; [tauto|].
  apply IH. tauto.
Qed.

Lemma lookup_bound (key : string) (v : value) (ps : list (string * value)) :
  NoDup (map fst ps) -> In (key, v) ps -> lookup key ps = v.
Proof.
  induction ps as [|[k u] ps IH]; cbn; intros Hnd Hin; [tauto|].
  inversion Hnd as [|? ? Hk Hrest]; subst.
  destruct Hin as [E|Hin].
  - injection E as -> ->. rewrite String.eqb_refl. reflexivity.
  - destruct (String.eqb_spec k key) as [->|_]; [|auto].
    exfalso. apply Hk. change key with (fst (key, v)). apply in_map, Hin.
Qed.

(** ** Submitting a job *)

(** X1. Submitting marks the form busy, and however the request ends
    (any response, or no response at all) the form is no longer busy. *)
Theorem submission_ends_loading (w : World) (r : Settled) :
  loading (run w (handleSubmit (url w) (location w))) = true /\
  loading (run w (handleSubmit_settled r)) = false.
Proof.
  split; [reflexivity|].
  rewrite handleSubmit_settled_cases.
  destruct r as [resp|e]; [destruct (ok resp); [|destruct (json resp)]|];
    reflexivity.
Qed.

(** X2. A response that is not ok, with the status text "Unprocessable
    Entity" and a JSON body, shows exactly one toast: an error titled
    "Invalid Video Requested" that carries the body and stays until
    dismissed; the URL input keeps its value. *)
Theorem unprocessable_shows_error (w : World) (resp : Response) (res : value) :
  ok resp = false ->
  statusText resp = "Unprocessable Entity" ->
  json resp = Some res ->
  let w' := run w (handleSubmit_settled (Fulfilled resp)) in
  toasts w' = toasts w ++ [{| type := error;
                              title := "Invalid Video Requested";
                              description := res;
                              time := 0 |}] /\
  url w' = url w.
Proof.
  intros Hok Htext Hjson w'. unfold w'.
  rewrite handleSubmit_settled_cases, Hok, Hjson.
  unfold rejectionAlert. rewrite Htext. split; reflexivity.
Qed.

Lemma unprocessable_shows_error_witness :
  let resp := {| status := 422; statusText := "Unprocessable Entity";
                 json := Some (Str "not a video") |} in
  toasts (run busy (handleSubmit_settled (Fulfilled resp)))
  = [{| type := error; title := "Invalid Video Requested";
        description := Str "not a video"; time := 0 |}].
Proof.
  intros resp.
  exact (proj1 (unprocessable_shows_error busy resp (Str "not a video")
                  eq_refl eq_refl eq_refl)).
Defined.

(** X3. A response that is not ok, whose status text is neither "Conflict"
    nor "Unprocessable Entity" and whose body is JSON, shows exactly one
    toast: an error titled "Unexpected job startup error!" that carries the
    body; the URL input keeps its value. *)
Theorem other_rejection_shows_error
    (w : World) (resp : Response) (res : value) :
  ok resp = false ->
  statusText resp <> "Conflict" ->
  statusText resp <> "Unprocessable Entity" ->
  json resp = Some res ->
  let w' := run w (handleSubmit_settled (Fulfilled resp)) in
  toasts w' = toasts w ++ [{| type := error;
                              title := "Unexpected job startup error!";
                              description := res;
                              time := 0 |}] /\
  url w' = url w.
Proof.
  intros Hok Hc Hu Hjson w'. unfold w'.
  rewrite handleSubmit_settled_cases, Hok, Hjson.
  unfold rejectionAlert.
  apply String.eqb_neq in Hc, Hu. rewrite Hc, Hu. split; reflexivity.
Qed.

Lemma other_rejection_shows_error_witness :
  let resp := {| status := 500; statusText := "Internal Server Error";
                 json := Some (Obj [("error", Str "disk full")]) |} in
  toasts (run busy (handleSubmit_settled (Fulfilled resp)))
  = [{| type := error; title := "Unexpected job startup error!";
        description := Obj [("error", Str "disk full")]; time := 0 |}].
Proof.
  intros resp.
  refine (proj1 (other_rejection_shows_error busy resp
                   (Obj [("error", Str "disk full")])
                   eq_refl _ _ eq_refl)); cbn; discriminate.
Defined.

(** X4. When the request gets no response, the error goes to the console and
    nothing else happens: no toast, no request, the URL input as it was. *)
Theorem transport_failure_only_logged (w : World) (err : Error) :
  let w' := run w (handleSubmit_settled (Rejected err)) in
  console w' = console w ++ [ErrorLine (LogError err)] /\
  toasts w' = toasts w /\
  network w' = network w /\
  url w' = url w.
Proof. repeat split. Qed.

(** X5. A response that is not ok and whose body is not JSON is dropped:
    no toast, nothing on the console, the URL input as it was. *)
Theorem unparsable_rejection_is_silent (w : World) (resp : Response) :
  ok resp = false ->
  json resp = None ->
  let w' := run w (handleSubmit_settled (Fulfilled resp)) in
  toasts w' = toasts w /\
  console w' = console w /\
  url w' = url w.
Proof.
  intros Hok Hjson w'. unfold w'.
  rewrite handleSubmit_settled_cases, Hok, Hjson. repeat split.
Qed.

Lemma unparsable_rejection_is_silent_witness :
  let resp := {| status := 502; statusText := "Bad Gateway"; json := None |} in
  toasts (run busy (handleSubmit_settled (Fulfilled resp))) = toasts busy /\
  console (run busy (handleSubmit_settled (Fulfilled resp))) = console busy.
Proof.
  intros resp.
  pose proof (unparsable_rejection_is_silent busy resp eq_refl eq_refl)
    as (Ht & Hc & _).
  exact (conj Ht Hc).
Defined.

(** X6. Whatever the outcome of a submission, it shows at most one toast,
    that toast stays until dismissed and is a warning or an error, and the
    URL input is either as it was or emptied without any toast. *)
Theorem submission_outcome_shape (w : World) (r : Settled) :
  let w' := run w (handleSubmit_settled r) in
  (exists new,
      toasts w' = toasts w ++ new /\
      (length new <= 1)%nat /\
      forall t, In t new -> time t = 0 /\ (type t = warning \/ type t = error)) /\
  (url w' = url w \/ (url w' = "" /\ toasts w' = toasts w)).
Proof.
  intros w'. unfold w'. rewrite handleSubmit_settled_cases.
  assert (Nothing : forall l : list ToastOptions,
             exists new,
               l = l ++ new /\ (length new <= 1)%nat /\
               forall t, In t new ->
                         time t = 0 /\ (type t = warning \/ type t = error)).
  { intros l. exists []. rewrite app_nil_r.
    split; [reflexivity|]. split; [cbn; lia|]. intros t []. }
  destruct r as [resp|e]; [destruct (ok resp); [|destruct (json resp) as [res|]]|].
  - split; [apply Nothing|]. right. split; reflexivity.
  - split; [|left; reflexivity].
    exists [rejectionAlert resp res].
    split; [reflexivity|]. split; [cbn; lia|].
    intros t [<-|[]]. split; [reflexivity|]. cbn.
    destruct (statusText resp =? "Conflict")%string; auto.
  - split; [apply Nothing|]. left. reflexivity.
  - split; [apply Nothing|]. left. reflexivity.
Qed.

(** ** Loading the snapshots *)

Lemma map_indexed_from {A B C} (f : A -> nat -> B) (g : B -> C) (h : A -> C)
    (l : list A) (start : nat) :
  (forall x index, g (f x index) = h x) ->
  map g (map (fun '(index, x) => f x index) (combine (seq start (length l)) l))
  = map h l.
Proof.
  intros H. revert start. induction l as [|x l IH]; intros start; cbn;
    [reflexivity|].
  rewrite H, IH. reflexivity.
Qed.

Lemma map_indexed_keys {A B} (f : A -> nat -> B) (key : B -> nat)
    (l : list A) (start : nat) :
  (forall x index, key (f x index) = index) ->
  map key (map (fun '(index, x) => f x index) (combine (seq start (length l)) l))
  = seq start (length l).
Proof.
  intros H. revert start. induction l as [|x l IH]; intros start; cbn;
    [reflexivity|].
  rewrite H, IH. reflexivity.
Qed.

Lemma indexed_values (l : list value) : map snd (indexed l) = l.
Proof.
  unfold indexed. generalize 0%nat.
  induction l as [|x l IH]; intros start; cbn; [reflexivity|].
  rewrite IH. reflexivity.
Qed.

Lemma indexed_keys (l : list value) :
  map fst (indexed l) = map index_key (seq 0 (length l)).
Proof.
  unfold indexed. generalize 0%nat.
  induction l as [|x l IH]; intros start; cbn; [reflexivity|].
  rewrite IH. reflexivity.
Qed.



(** X8. When [/locations] serves an object, the locations are its entries,
    name and path, in the order of the object; the select then offers
    exactly these names, in that order, keyed 0, 1, 2 and so on. *)
Theorem locations_follow_object
    (w : World) (resp : Response) (ps : list (string * value)) :
  json resp = Some (Obj ps) ->
  let w' := run w (locations_fetched (Fulfilled resp)) in
  map (fun l => (name l, path l)) (locations w') = ps /\
  map option_value (options (locations w')) = map fst ps /\
  map option_text (options (locations w')) = map fst ps /\
  map option_key (options (locations w')) = seq 0 (length ps).
Proof.
  intros H w'.
  assert (L : locations w'
              = map (fun '(n, p) => {| name := n; path := p |}) ps).
  { unfold w', locations_fetched, resp_json.
    cbn [settle bind ret Monad_M catch MonadExc_M M_bind M_ret].
    rewrite H. reflexivity. }
  rewrite L. unfold options, map_indexed. repeat split.
  - rewrite map_map. rewrite <- (map_id ps) at 2.
    apply map_ext. intros [n p]. reflexivity.
  - rewrite (map_indexed_from _ option_value name) by reflexivity.
    rewrite map_map. apply map_ext. intros [n p]. reflexivity.
  - rewrite (map_indexed_from _ option_text name) by reflexivity.
    rewrite map_map. apply map_ext. intros [n p]. reflexivity.
  - rewrite map_indexed_keys by reflexivity.
    rewrite length_map. reflexivity.
Qed.

Lemma locations_follow_object_witness :
  let resp := {| status := 200; statusText := "OK";
                 json := Some (Obj [("films", Str "/srv/films");
                                    ("music", Str "/srv/music")]) |} in
  map option_value
    (options (locations (run initial (locations_fetched (Fulfilled resp)))))
  = ["films"; "music"].
Proof.
  intros resp.
  exact (proj1 (proj2 (locations_follow_object initial resp
                         [("films", Str "/srv/films");
                          ("music", Str "/srv/music")] eq_refl))).
Defined.

(** X9. Bodies of [/locations] that are JSON but no object: on [null] the
    conversion throws, the error is logged and the locations stay as they
    were; a boolean or a number empties the locations; an array gives one
    location per element, named by its index, with the element as path. *)
Theorem locations_of_other_bodies (w : World) (resp : Response) :
  let w' := run w (locations_fetched (Fulfilled resp)) in
  (json resp = Some Null ->
   locations w' = locations w /\
   console w' = console w ++ [ErrorLine (LogError TypeError)]) /\
  (forall b, json resp = Some (Bool b) -> locations w' = []) /\
  (forall n, json resp = Some (Num n) -> locations w' = []) /\
  (forall l, json resp = Some (Arr l) ->
             map path (locations w') = l /\
             map name (locations w') = map index_key (seq 0 (length l))).
Proof.
  intros w'. unfold w', locations_fetched, resp_json.
  cbn [settle bind ret Monad_M catch MonadExc_M M_bind M_ret].
  split; [|split; [|split]].
  - intros H. rewrite H. split; reflexivity.
  - intros b H. rewrite H. reflexivity.
  - intros n H. rewrite H. reflexivity.
  - intros l H. rewrite H. cbn. split; rewrite map_map.
    + rewrite <- (indexed_values l) at 2.
      apply map_ext. intros [n p]. reflexivity.
    + rewrite <- indexed_keys.
      apply map_ext. intros [n p]. reflexivity.
Qed.

Lemma locations_of_other_bodies_witness :
  let ok_with b := {| status := 200; statusText := "OK"; json := Some b |} in
  locations (run busy (locations_fetched (Fulfilled (ok_with Null))))
  = locations busy /\
  map name
    (locations
       (run busy
          (locations_fetched (Fulfilled (ok_with (Arr [Str "/a"; Str "/b"]))))))
  = ["0"; "1"].
Proof.
  intros ok_with. split.
  - exact (proj1 (proj1 (locations_of_other_bodies busy (ok_with Null))
                    eq_refl)).
  - exact (proj2 (proj2 (proj2 (proj2
             (locations_of_other_bodies busy
                (ok_with (Arr [Str "/a"; Str "/b"])))))
             [Str "/a"; Str "/b"] eq_refl)).
Defined.

(** ** Sessions *)

(** What one event does to the connection flag. *)
Lemma react_connected (w : World) (e : Event) :
  connected (react w e)
  = if is_Open e then true
    else if disconnects e then false
         else connected w.
Proof. by_event e; reflexivity. Qed.

(** Only the mount of [App] opens a socket, and only the mount and
    [handleSubmit] send requests. *)
Lemma react_network (w : World) (e : Event) :
  count is_socket_opened (network (react w e))
  = (count is_socket_opened (network w) + if is_Mounted e then 1 else 0)%nat /\
  count is_request (network (react w e))
  = (count is_request (network w)
     + if is_Mounted e then 3 else if is_Submitted e then 1 else 0)%nat.
Proof.
  by_event e; unfold count; rewrite ?filter_app, ?length_app; cbn; lia.
Qed.

Lemma react_location (w : World) (e : Event) :
  location (react w e)
  = match e with
    | LocationPicked v => v
    | _ => location w
    end.
Proof. by_event e; reflexivity. Qed.

Lemma react_toasts (w : World) (e : Event) :
  exists new,
    toasts (react w e) = toasts w ++ new /\
    (length new <= 2)%nat /\
    (may_toast e = false -> new = []).
Proof.
  by_event e;
    first
      [ exists []; rewrite app_nil_r; repeat split; cbn; lia
      | eexists [_]; rewrite <- ?app_assoc; repeat split; cbn;
        [lia | discriminate]
      | eexists [_; _]; rewrite <- ?app_assoc; repeat split; cbn;
        [lia | discriminate] ].
Qed.

Lemma session_app (before after : list Event) :
  session (before ++ after) = fold_left react after (session before).
Proof. unfold session. apply fold_left_app. Qed.

Lemma connected_since (after : list Event) (w : World) :
  connected (fold_left react after w) = true ->
  connected w = true \/ existsb is_Open after = true.
Proof.
  revert w. induction after as [|e after IH]; intros w H; cbn in *;
    [left; exact H|].
  destruct (IH _ H) as [Hc|Ho]; [|right; rewrite Ho; apply orb_true_r].
  rewrite react_connected in Hc.
  destruct (is_Open e); [right; reflexivity|].
  destruct (disconnects e); [discriminate|left; exact Hc].
Qed.

Lemma connected_kept (after : list Event) (w : World) :
  forallb (fun e => negb (disconnects e)) after = true ->
  connected w = true ->
  connected (fold_left react after w) = true.
Proof.
  revert w. induction after as [|e after IH]; intros w H Hw; cbn in *;
    [exact Hw|].
  apply andb_prop in H as [He Hrest]. apply IH; [exact Hrest|].
  rewrite react_connected.
  destruct (is_Open e); [reflexivity|].
  destruct (disconnects e); [discriminate|exact Hw].
Qed.

Lemma disconnected_kept (after : list Event) (w : World) :
  existsb is_Open after = false ->
  connected w = false ->
  connected (fold_left react after w) = false.
Proof.
  revert w. induction after as [|e after IH]; intros w H Hw; cbn in *;
    [exact Hw|].
  apply orb_false_elim in H as [He Hrest]. apply IH; [exact Hrest|].
  rewrite react_connected, He.
  destruct (disconnects e); [reflexivity|exact Hw].
Qed.

(** X10. The page shows Connected only if the socket has opened at some
    point of the session. *)
Theorem connected_only_after_open (events : list Event) :
  connected (session events) = true ->
  existsb is_Open events = true /\
  serverStatus (session events) = "Server Status: Connected".
Proof.
  intros H. split.
  - destruct (connected_since events initial H) as [Hi|Ho];
      [discriminate|exact Ho].
  - unfold serverStatus. rewrite H. reflexivity.
Qed.

Lemma connected_only_after_open_witness :
  existsb is_Open [Mounted; Open; Message (envelope [])] = true.
Proof.
  exact (proj1 (connected_only_after_open
                  [Mounted; Open; Message (envelope [])] eq_refl)).
Defined.

(** X11. The connection flag follows the last event of the socket that
    counts: it is set after an open that no error and no unclean close
    followed, and unset after an error or an unclean close that no open
    followed; messages, fetches, submissions and clean closes in between
    leave it alone. *)
Theorem connected_follows_last_socket_event
    (before after : list Event) (e : Event) :
  (is_Open e = true ->
   forallb (fun e => negb (disconnects e)) after = true ->
   connected (session (before ++ e :: after)) = true) /\
  (disconnects e = true ->
   existsb is_Open after = false ->
   connected (session (before ++ e :: after)) = false).
Proof.
  rewrite session_app. cbn [fold_left]. split; intros He Hafter.
  - apply connected_kept; [exact Hafter|].
    rewrite react_connected, He. reflexivity.
  - apply disconnected_kept; [exact Hafter|].
    rewrite react_connected.
    destruct e; try discriminate He; cbn in *; rewrite ?He; reflexivity.
Qed.

Lemma connected_follows_last_socket_event_witness :
  connected
    (session ([Mounted; Errored] ++ Open ::
              [Message (envelope [("PendingJobs", Arr [])]); Close clean;
               Submitted])) = true /\
  connected
    (session ([Mounted; Open] ++
              Close {| wasClean := false; code := 1006; reason := "" |} ::
              [Message (envelope []); JobsFetched (Rejected TypeError)]))
  = false.
Proof.
  split.
  - exact (proj1 (connected_follows_last_socket_event [Mounted; Errored]
                    [Message (envelope [("PendingJobs", Arr [])]); Close clean;
                     Submitted] Open) eq_refl eq_refl).
  - exact (proj2 (connected_follows_last_socket_event [Mounted; Open]
                    [Message (envelope []); JobsFetched (Rejected TypeError)]
                    (Close {| wasClean := false; code := 1006; reason := "" |}))
             eq_refl eq_refl).
Defined.

Lemma toasts_grow (more : list Event) (w : World) :
  exists new,
    toasts (fold_left react more w) = toasts w ++ new /\
    (existsb may_toast more = false -> new = []).
Proof.
  revert w. induction more as [|e more IH]; intros w; cbn.
  - exists []. rewrite app_nil_r. split; reflexivity.
  - destruct (IH (react w e)) as (rest & Hrest & Hnone).
    destruct (react_toasts w e) as (new & Hnew & _ & Hquiet).
    exists (new ++ rest). rewrite Hrest, Hnew, app_assoc.
    split; [reflexivity|]. intros H.
    apply orb_false_elim in H as [He Hmore].
    rewrite (Hquiet He), (Hnone Hmore). reflexivity.
Qed.

(** X12. The program calls [toast] only while it handles a push message or
    the outcome of a submission: over any stretch of a session made of other
    events (socket errors, closes and opens, snapshot responses and
    failures, typing, picking a location, submitting, mounting, unmounting)
    the calls of [toast] are those made before. *)
Theorem other_events_call_no_toast (events more : list Event) :
  existsb may_toast more = false ->
  toasts (session (events ++ more)) = toasts (session events).
Proof.
  intros H. rewrite session_app.
  destruct (toasts_grow more (session events)) as (new & Hnew & Hquiet).
  rewrite Hnew, (Hquiet H). apply app_nil_r.
Qed.

Lemma other_events_call_no_toast_witness :
  let shown := [Mounted; Open; Message (envelope [("Finished", job "v1")])] in
  let quiet :=
    [Errored; Close {| wasClean := false; code := 1006; reason := "" |};
     JobsFetched (Rejected TypeError); Open; Submitted] in
  toasts (session (shown ++ quiet)) = toasts (session shown).
Proof.
  intros shown quiet.
  exact (other_events_call_no_toast shown quiet eq_refl).
Defined.

Lemma count_app {A} (p : A -> bool) (l l' : list A) :
  count p (l ++ l') = (count p l + count p l')%nat.
Proof. unfold count. rewrite filter_app, length_app. reflexivity. Qed.

Lemma network_counts (events : list Event) (w : World) :
  let w' := fold_left react events w in
  count is_socket_opened (network w')
  = (count is_socket_opened (network w) + count is_Mounted events)%nat /\
  count is_request (network w')
  = (count is_request (network w)
     + 3 * count is_Mounted events + count is_Submitted events)%nat.
Proof.
  revert w. induction events as [|e events IH]; intros w; cbn zeta.
  - cbn. split; lia.
  - cbn [fold_left]. destruct (IH (react w e)) as (Ho & Hr).
    destruct (react_network w e) as (Ho' & Hr').
    rewrite Ho, Hr, Ho', Hr'.
    unfold count. destruct e; cbn [filter length is_Mounted is_Submitted];
      split; lia.
Qed.

(** X13. In every session the page has opened as many sockets as it was
    mounted, and it has sent three requests per mount and one per
    submission: no handler of a response, of a failure or of a socket event
    sends a request or opens a socket. *)
Theorem network_traffic_accounted (events : list Event) :
  count is_socket_opened (network (session events)) = count is_Mounted events /\
  count is_request (network (session events))
  = (3 * count is_Mounted events + count is_Submitted events)%nat.
Proof.
  destruct (network_counts events initial) as (Ho & Hr).
  unfold session. rewrite Ho, Hr. cbn. split; lia.
Qed.

Lemma location_unpicked (events : list Event) (w : World) :
  existsb is_LocationPicked events = false ->
  location (fold_left react events w) = location w.
Proof.
  revert w. induction events as [|e events IH]; intros w H; cbn in *;
    [reflexivity|].
  apply orb_false_elim in H as [He Hrest].
  rewrite IH by exact Hrest. rewrite react_location.
  destruct e; try reflexivity. discriminate.
Qed.

(** X14. Until the user picks a location in the select, the form holds no
    location, even once the locations have loaded; a submission then sends
    a body with the URL alone. *)
Theorem unpicked_location_is_not_sent (events : list Event) :
  existsb is_LocationPicked events = false ->
  location (session events) = None /\
  network (session (events ++ [Submitted]))
  = network (session events) ++
    [Requested {| resource := "/jobs";
                  method := "POST";
                  body := Some (Obj [("url", Str (url (session events)))]) |}].
Proof.
  intros H.
  assert (L : location (session events) = None)
    by (unfold session; rewrite location_unpicked by exact H; reflexivity).
  split; [exact L|].
  rewrite session_app. cbn [fold_left react]. run_handler. rewrite L.
  reflexivity.
Qed.

Lemma unpicked_location_is_not_sent_witness :
  let served :=
    Fulfilled {| status := 200; statusText := "OK";
                 json := Some (Obj [("films", Str "/srv/films")]) |} in
  location (session [Mounted; LocationsFetched served; UrlTyped "http://x"])
  = None.
Proof.
  intros served.
  exact (proj1 (unpicked_location_is_not_sent
                  [Mounted; LocationsFetched served; UrlTyped "http://x"]
                  eq_refl)).
Defined.

(** X15. What the user typed last and picked last is what a submission
    sends: one POST to [/jobs] whose body holds that URL and that
    location. *)
Theorem submission_sends_the_input
    (events : list Event) (v : string) (l : string) :
  network (session (events ++ [LocationPicked (Some l); UrlTyped v; Submitted]))
  = network (session events) ++
    [Requested {| resource := "/jobs";
                  method := "POST";
                  body := Some (Obj [("url", Str v); ("location", Str l)]) |}].
Proof.
  rewrite session_app. cbn [fold_left react]. reflexivity.
Qed.

(** ** Push messages *)

(** X16. A frame that is no JSON object changes neither list, shows no toast
    and leaves the connection flag alone.  When the frame is not JSON the
    handler throws before it logs anything; on [null] it throws after
    logging; on any other value it returns. *)
Theorem frames_without_envelope (w : World) (update : MessageEvent) :
  (forall fields, data update <> Some (Obj fields)) ->
  let w' := run w (onmessage update) in
  (pendingJobs w' = pendingJobs w /\
   completedJobs w' = completedJobs w /\
   toasts w' = toasts w /\
   connected w' = connected w) /\
  (data update = None ->
   completion (onmessage update) = Throw SyntaxError /\ w' = w) /\
  (data update = Some Null ->
   completion (onmessage update) = Throw TypeError /\
   console w' = console w ++ [LogLine (LogValue Null)]) /\
  (forall message,
      data update = Some message -> message <> Null -> message <> Undefined ->
      completion (onmessage update) = Normal tt /\
      console w' = console w ++ [LogLine (LogValue message)]).
Proof.
  intros H w'. unfold w'. destruct update as [[message|]]; cbn [data] in *.
  - destruct message as [| |b|n|s|l|ps];
      try (exfalso; apply (H ps); reflexivity);
      (split; [repeat split|]);
      (split; [discriminate|]);
      (split; [try discriminate; intros _; split; reflexivity|]);
      intros m [= <-] Hn Hu; try congruence; split; reflexivity.
  - split; [repeat split|]. split; [intros _; split; reflexivity|].
    split; [discriminate|]. intros m [=].
Qed.

Lemma frames_without_envelope_witness :
  let update := {| data := Some (Arr [job "v9"]) |} in
  pendingJobs (run busy (onmessage update)) = pendingJobs busy /\
  toasts (run busy (onmessage {| data := None |})) = toasts busy.
Proof.
  intros update.
  assert (A : forall fields, data update <> Some (Obj fields))
    by (intros fields; discriminate).
  assert (B : forall fields,
             data {| data := None |} <> Some (Obj fields))
    by (intros fields; discriminate).
  pose proof (proj1 (frames_without_envelope busy update A)) as (Hp & _).
  pose proof (proj1 (frames_without_envelope busy {| data := None |} B))
    as (_ & _ & Ht & _).
  exact (conj Hp Ht).
Defined.



Lemma lookup_permutation (key : string) (ps qs : list (string * value)) :
  NoDup (map fst ps) -> Permutation ps qs -> lookup key ps = lookup key qs.
Proof.
  intros Hnd Hperm.
  assert (Hnd' : NoDup (map fst qs))
    by (eapply Permutation_NoDup; [apply Permutation_map, Hperm|exact Hnd]).
  destruct (in_dec string_dec key (map fst ps)) as [Hin|Hout].
  - apply in_map_iff in Hin as ([k v] & Hk & Hin). cbn in Hk. subst k.
    rewrite (lookup_bound key v ps Hnd Hin).
    symmetry. apply lookup_bound; [exact Hnd'|].
    eapply Permutation_in; eassumption.
  - rewrite (lookup_absent key ps Hout).
    symmetry. apply lookup_absent. intros Hin. apply Hout.
    eapply Permutation_in; [|exact Hin].
    apply Permutation_sym, Permutation_map, Hperm.
Qed.

(** X18. The order of the keys in an envelope does not matter: two objects
    with the same properties, keys distinct, leave the same lists and show
    the same toasts in the same order. *)
Theorem key_order_is_irrelevant
    (w : World) (fields fields' : list (string * value)) :
  NoDup (map fst fields) ->
  Permutation fields fields' ->
  let w1 := run w (onmessage (envelope fields)) in
  let w2 := run w (onmessage (envelope fields')) in
  pendingJobs w1 = pendingJobs w2 /\
  completedJobs w1 = completedJobs w2 /\
  toasts w1 = toasts w2.
Proof.
  intros Hnd Hperm. cbn zeta. rewrite !onmessage_envelope.
  rewrite <- !(lookup_permutation _ fields fields' Hnd Hperm).
  run_handler. by_truthiness; repeat split.
Qed.

Lemma key_order_is_irrelevant_witness :
  let a := [("Finished", job "v1"); ("CompletedJobs", Arr [job "v1"])] in
  let b := [("CompletedJobs", Arr [job "v1"]); ("Finished", job "v1")] in
  toasts (run busy (onmessage (envelope a)))
  = toasts (run busy (onmessage (envelope b))).
Proof.
  intros a b.
  assert (Hnd : NoDup (map fst a)).
  { repeat constructor; cbn; intuition discriminate. }
  assert (Hperm : Permutation a b) by apply perm_swap.
  exact (proj2 (proj2 (key_order_is_irrelevant busy a b Hnd Hperm))).
Defined.



(** ** The tables and the socket address *)

Lemma in_map_indexed {A B} (f : A -> nat -> B) (l : list A) (y : B) :
  In y (map_indexed f l) -> exists x index, In x l /\ y = f x index.
Proof.
  unfold map_indexed. intros H.
  apply in_map_iff in H as ([index x] & <- & Hin).
  exists x, index. split; [|reflexivity].
  eapply in_combine_r. exact Hin.
Qed.

Lemma length_map_indexed {A B} (f : A -> nat -> B) (l : list A) :
  length (map_indexed f l) = length l.
Proof.
  unfold map_indexed.
  rewrite length_map, length_combine, length_seq. apply Nat.min_id.
Qed.

(** X20. The table of [JobList] has one row per job, in the order of the
    list and keyed 0, 1, 2 and so on; each row links to the URL of its job,
    and has as many cells as the header has columns: two for the running
    jobs, three for the completed ones, the third being the status text. *)
Theorem job_table_is_rectangular
    (fromNow : string -> string) (isCompleted : bool) (jobs : list Job.Job) :
  let body := JobList_body fromNow isCompleted jobs in
  length body = length jobs /\
  map row_key body = seq 0 (length jobs) /\
  map href body = map Job.url jobs /\
  (forall row, In row body ->
               length (cells row) = length (JobList_header isCompleted)) /\
  length (JobList_header isCompleted) = (if isCompleted then 3 else 2)%nat /\
  (isCompleted = true ->
   map (fun row => nth 2 (cells row) "") body = map jobStatus jobs).
Proof.
  cbn zeta. unfold JobList_body. repeat split.
  - apply length_map_indexed.
  - unfold map_indexed. apply map_indexed_keys. reflexivity.
  - unfold map_indexed. apply map_indexed_from. reflexivity.
  - intros row H. apply in_map_indexed in H as (job & index & _ & ->).
    destruct isCompleted; reflexivity.
  - destruct isCompleted; reflexivity.
  - intros ->. unfold map_indexed. apply map_indexed_from. reflexivity.
Qed.

Lemma job_table_is_rectangular_witness :
  let done :=
    {| Job.url := "http://v"; Job.title := None;
       Job.location := {| name := "films"; path := Str "/srv/films" |};
       Job.startedOn := "2021-03-01T10:00:00Z";
       Job.status := Job.Failed "no space" |} in
  map (fun row => nth 2 (cells row) "")
      (JobList_body (fun d => d) true [done])
  = ["Failed: no space"].
Proof.
  intros done.
  exact (proj2 (proj2 (proj2 (proj2 (proj2
           (job_table_is_rectangular (fun d => d) true [done])))))
           eq_refl).
Defined.

(** X21. The link of a row shows the title of the job when it has a
    non-empty one, and its URL when it has no title or an empty one; so the
    link is blank only for a job whose URL is empty. *)
Theorem link_text_falls_back_to_url (job : Job.Job) :
  (forall t, Job.title job = Some t -> t <> "" -> linkText job = t) /\
  (Job.title job = None \/ Job.title job = Some "" ->
   linkText job = Job.url job) /\
  (linkText job = "" -> Job.url job = "").
Proof.
  unfold linkText. destruct (Job.title job) as [t|].
  - destruct (String.eqb_spec t "") as [->|Hne].
    + repeat split; auto. intros t [= <-] Hne. contradiction.
    + repeat split.
      * intros t' [= <-] _. reflexivity.
      * intros [H|[= ->]]; [discriminate|contradiction].
      * intros ->. contradiction.
  - repeat split; auto. intros t H. discriminate.
Qed.

Lemma link_text_falls_back_to_url_witness :
  let job t :=
    {| Job.url := "http://v"; Job.title := t;
       Job.location := {| name := "films"; path := Str "/srv/films" |};
       Job.startedOn := "2021-03-01T10:00:00Z";
       Job.status := Job.InProgress |} in
  linkText (job (Some "A film")) = "A film" /\
  linkText (job (Some "")) = "http://v" /\
  linkText (job None) = "http://v".
Proof.
  intros job. split; [|split].
  - refine (proj1 (link_text_falls_back_to_url (job (Some "A film")))
              "A film" eq_refl _).
    discriminate.
  - exact (proj1 (proj2 (link_text_falls_back_to_url (job (Some ""))))
             (or_intror eq_refl)).
  - exact (proj1 (proj2 (link_text_falls_back_to_url (job None)))
             (or_introl eq_refl)).
Defined.

(** X22. A configured, non-empty socket address is used as it is.  Without
    one (or with an empty one) the address is the host of the page followed
    by [/ws], and its scheme is [wss://] exactly when the page was loaded
    over [https:]. *)
Theorem socket_address
    (REACT_APP_WS_URL : option string) (protocol host : string) :
  (forall configured,
      REACT_APP_WS_URL = Some configured -> configured <> "" ->
      WebsocketURI REACT_APP_WS_URL protocol host = configured) /\
  (REACT_APP_WS_URL = None \/ REACT_APP_WS_URL = Some "" ->
   (exists scheme,
       WebsocketURI REACT_APP_WS_URL protocol host
       = (scheme ++ host ++ "/ws")%string /\
       (scheme = "wss://" \/ scheme = "ws://")) /\
   (prefix "wss://" (WebsocketURI REACT_APP_WS_URL protocol host) = true
    <-> protocol = "https:")).
Proof.
  split.
  - intros configured -> Hne. unfold WebsocketURI.
    apply String.eqb_neq in Hne. rewrite Hne. reflexivity.
  - intros H.
    assert (E : WebsocketURI REACT_APP_WS_URL protocol host
                = ((if (protocol =? "https:")%string
                    then "wss://" else "ws://") ++ host ++ "/ws")%string)
      by (destruct H as [->| ->]; reflexivity).
    rewrite E. destruct (String.eqb_spec protocol "https:") as [->|Hne].
    + split; [exists "wss://"; auto|].
      split; intros _; [reflexivity|]. apply prefix_correct. cbn.
      destruct (host ++ "/ws")%string; reflexivity.
    + split; [exists "ws://"; auto|].
      split; [intros P|tauto].
      apply prefix_correct in P. cbn in P. discriminate P.
Qed.

Lemma socket_address_witness :
  WebsocketURI (Some "ws://localhost:8080/ws") "https:" "yodel.example"
  = "ws://localhost:8080/ws" /\
  prefix "wss://" (WebsocketURI (Some "") "https:" "yodel.example") = true.
Proof.
  split.
  - refine (proj1 (socket_address (Some "ws://localhost:8080/ws")
                     "https:" "yodel.example") _ eq_refl _).
    discriminate.
  - exact (proj2 (proj2 (proj2 (socket_address (Some "") "https:"
                                  "yodel.example")
                           (or_intror eq_refl))) eq_refl).
Defined.
